(** * SAS-TIMESTAMPS: the deterministic timestamp engine of [sw.js]

    A shallow embedding of the service worker's engine ([planForName] and the
    functions it calls) and of its request handler ([handleApi]), followed by
    the properties of the specification that were checked against it.

    Conventions of the embedding.
    - A JavaScript string is a [string]: a sequence of code units.  The
      development covers names made of ASCII code units; [toUpperCase] and
      [trim] are given on that range (code units from 128 on are left as they
      are, and are not white space).
    - A JavaScript number that the program computes with fractions
      ([lexFraction]) is an IEEE 754 binary64 value: a [spec_float] with the
      operations of [SpecFloat] at precision 53 and maximal exponent 1024.
    - A JavaScript number that holds an integer (a slot, an offset, a time
      value) is a [number]: an exact integer, or one of the three values that
      are not integers.  All integers of the program are far below 2^53, where
      binary64 arithmetic on integers is exact.
    - What depends on the machine that runs the worker (time zone, rendering
      of dates) is a field of [Host]. *)

From Stdlib Require Import ZArith List Bool Ascii String Lia.
From Stdlib Require Import QArith Qpower.
From Stdlib Require Import Floats.SpecFloat.
Import ListNotations.

Local Open Scope string_scope.
Local Open Scope Z_scope.

(** Strict equality of two strings, as [a === b] in the source. *)
Local Notation "a === b" := (String.eqb a b) (at level 70, no associativity).

(** ** The string operations of the language that the program uses *)

Module JS.

Definition charCodeOf (c : ascii) : Z := Z.of_N (N_of_ascii c).

(** White space of [String.prototype.trim] in the ASCII range: TAB, LF, VT,
    FF, CR and SPACE. *)
Definition isWhiteSpace (c : ascii) : bool :=
  let n := charCodeOf c in
  ((9 <=? n) && (n <=? 13)) || (n =? 32).

Fixpoint trimStart (s : string) : string :=
  match s with
  | EmptyString => EmptyString
  | String c r => if isWhiteSpace c then trimStart r else s
  end.

Fixpoint trimEnd (s : string) : string :=
  match s with
  | EmptyString => EmptyString
  | String c r =>
      match trimEnd r with
      | EmptyString => if isWhiteSpace c then EmptyString else String c EmptyString
      | r' => String c r'
      end
  end.

Definition trim (s : string) : string := trimEnd (trimStart s).

Definition upperChar (c : ascii) : ascii :=
  let n := charCodeOf c in
  if (97 <=? n) && (n <=? 122) then ascii_of_N (Z.to_N (n - 32)) else c.

Fixpoint toUpperCase (s : string) : string :=
  match s with
  | EmptyString => EmptyString
  | String c r => String (upperChar c) (toUpperCase r)
  end.

(** [s.startsWith(p)] *)
Definition startsWith (s p : string) : bool := String.prefix p s.

(** [s.slice(n)] for [0 <= n] *)
Fixpoint slice (s : string) (n : nat) : string :=
  match n, s with
  | O, _ => s
  | S _, EmptyString => EmptyString
  | S n', String _ r => slice r n'
  end.

(** [s.replace(/-/g, "")] *)
Fixpoint removeDashes (s : string) : string :=
  match s with
  | EmptyString => EmptyString
  | String c r =>
      if Ascii.eqb c "-"%char then removeDashes r else String c (removeDashes r)
  end.

(** [list.includes(n)] on an array of strings *)
Definition includes (list : list string) (n : string) : bool :=
  existsb (String.eqb n) list.

(** [Array.from(s)]: the code units of an ASCII string *)
Definition chars (s : string) : list ascii := list_ascii_of_string s.

(** [arr.map((x, i) => [x, i])] *)
Fixpoint withIndexFrom {A : Type} (i : Z) (l : list A) : list (A * Z) :=
  match l with
  | [] => []
  | x :: r => (x, i) :: withIndexFrom (i + 1) r
  end.

Definition withIndex {A : Type} (l : list A) : list (A * Z) := withIndexFrom 0 l.

(** Lookup in a map built from a list of entries ([new Map(entries)],
    [Object.fromEntries(entries)]): a later entry replaces an earlier one
    with the same key. *)
Fixpoint lookupLast {K V : Type} (eqb : K -> K -> bool) (entries : list (K * V))
  (k : K) : option V :=
  match entries with
  | [] => None
  | (k', v) :: r =>
      match lookupLast eqb r k with
      | Some w => Some w
      | None => if eqb k k' then Some v else None
      end
  end.

(** [s.endsWith(p)]: the last [p.length] code units of [s] are [p]. *)
Definition endsWith (s p : string) : bool :=
  (String.length p <=? String.length s)%nat
  && String.eqb (slice s (String.length s - String.length p)) p.

End JS.

(** ** User configuration *)

Definition SECONDS_BETWEEN_ITEMS : Z := 1.
Definition SLOTS_PER_CATEGORY : Z := 86400.

Definition UNPREFIXED_IN_CATEGORY : list (string * list string) :=
  [ ("APP_", ["OSDXMB"; "XEBPLUS"]);
    ("APPS", []);
    ("PS1_", []);
    ("EMU_", []);
    ("GME_", []);
    ("DST_", []);
    ("DBG_", []);
    ("RAA_", ["RESTART"; "POWEROFF"]);
    ("RTE_", ["NEUTRINO"]);
    ("SYS_", ["BOOT"]);
    ("ZZY_", ["EXPLOITS"]);
    ("ZZZ_", ["BM"; "MATRIXTEAM"; "OPL"]) ].

Definition CATEGORY_ORDER : list string :=
  [ "APP_"; "APPS"; "PS1_"; "EMU_"; "GME_"; "DST_"; "DBG_";
    "RAA_"; "RTE_"; "DEFAULT"; "SYS_"; "ZZY_"; "ZZZ_" ].

(** ** Internals *)

(** [CATEGORY_INDEX[k]], as far as it is a number: the index of an entry of
    the table.  [None] is a key that is not an entry; the lookup of the
    program then gives [undefined] or, for a name of [Object.prototype] such
    as [constructor], an inherited member, and neither is a number.  The
    program looks up the results of [effectiveCategoryKey] only, which are
    entries. *)
Definition CATEGORY_INDEX (k : string) : option Z :=
  JS.lookupLast String.eqb (JS.withIndex CATEGORY_ORDER) k.

Definition CATEGORY_BLOCK_SECONDS : Z := SLOTS_PER_CATEGORY * SECONDS_BETWEEN_ITEMS.

Definition CHARSET : string := " 0123456789ABCDEFGHIJKLMNOPQRSTUVWXYZ_-.".

Definition CHAR_INDEX (ch : ascii) : option Z :=
  JS.lookupLast Ascii.eqb (JS.withIndex (JS.chars CHARSET)) ch.

Definition BASE : Z := Z.of_nat (String.length CHARSET).

(** ** Name normalizer *)

(** The loop over [Object.entries(UNPREFIXED_IN_CATEGORY)]: the first category
    whose list includes [n] decides. *)
Fixpoint configuredMapping (entries : list (string * list string)) (n : string)
  : option string :=
  match entries with
  | [] => None
  | (catKey, list) :: rest =>
      if JS.includes list n
      then Some (if catKey === "APPS" then "APPS" else catKey ++ n)
      else configuredMapping rest n
  end.

Definition normalizeToEffective (name : string) : string :=
  let n := JS.toUpperCase (JS.trim name) in
  match configuredMapping UNPREFIXED_IN_CATEGORY n with
  | Some eff => eff
  | None =>
      if (n === "OSDXMB") || (n === "XEBPLUS") then "APP_" ++ n
      else if (n === "RESTART") || (n === "POWEROFF") then "RAA_" ++ n
      else if n === "NEUTRINO" then "RTE_" ++ n
      else if n === "BOOT" then "SYS_BOOT"
      else if n === "EXPLOITS" then "ZZY_EXPLOITS"
      else if (n === "BM") || (n === "MATRIXTEAM") || (n === "OPL") then "ZZZ_" ++ n
      else n
  end.

(** ** Category classifier *)

Definition effectiveCategoryKey (eff : string) : string :=
  if JS.startsWith eff "APP_" then "APP_"
  else if eff === "APPS" then "APPS"
  else if JS.startsWith eff "PS1_" then "PS1_"
  else if JS.startsWith eff "EMU_" then "EMU_"
  else if JS.startsWith eff "GME_" then "GME_"
  else if JS.startsWith eff "DST_" then "DST_"
  else if JS.startsWith eff "DBG_" then "DBG_"
  else if JS.startsWith eff "RAA_" then "RAA_"
  else if JS.startsWith eff "RTE_" then "RTE_"
  else if JS.startsWith eff "SYS_" || (eff === "SYS") then "SYS_"
  else if JS.startsWith eff "ZZY_" then "ZZY_"
  else if JS.startsWith eff "ZZZ_" then "ZZZ_"
  else "DEFAULT".

Definition categoryLabel (eff : string) : string :=
  let key := effectiveCategoryKey eff in
  if key === "DEFAULT" then "DEFAULT"
  else if key === "APPS" then "APPS" else key ++ "*".

(** ** Payload extractor *)

Definition payloadForEffective (eff : string) : string :=
  let key := effectiveCategoryKey eff in
  if key === "APPS" then "APPS"
  else if key === "DEFAULT" then JS.removeDashes eff
  else
    let payload := if JS.startsWith eff key then JS.slice eff (String.length key) else eff in
    JS.removeDashes payload.

(** ** Numbers *)

(** Integer-valued numbers, with the three values of the language that are not
    integers. *)
Inductive number : Type :=
| Int (z : Z)
| NaN
| PosInfinity
| NegInfinity.

Module Num.

Definition sign (neg : bool) : number := if neg then NegInfinity else PosInfinity.

Definition add (a b : number) : number :=
  match a, b with
  | NaN, _ | _, NaN => NaN
  | Int x, Int y => Int (x + y)
  | PosInfinity, NegInfinity | NegInfinity, PosInfinity => NaN
  | PosInfinity, _ | _, PosInfinity => PosInfinity
  | NegInfinity, _ | _, NegInfinity => NegInfinity
  end.

Definition mul (a b : number) : number :=
  match a, b with
  | NaN, _ | _, NaN => NaN
  | Int x, Int y => Int (x * y)
  | Int x, PosInfinity | PosInfinity, Int x =>
      if x =? 0 then NaN else sign (x <? 0)
  | Int x, NegInfinity | NegInfinity, Int x =>
      if x =? 0 then NaN else sign (0 <? x)
  | PosInfinity, PosInfinity | NegInfinity, NegInfinity => PosInfinity
  | PosInfinity, NegInfinity | NegInfinity, PosInfinity => NegInfinity
  end.

Definition opp (a : number) : number :=
  match a with
  | Int x => Int (- x)
  | NaN => NaN
  | PosInfinity => NegInfinity
  | NegInfinity => PosInfinity
  end.

Definition sub (a b : number) : number := add a (opp b).

(** [a >= b] *)
Definition geb (a b : number) : bool :=
  match a, b with
  | NaN, _ | _, NaN => false
  | Int x, Int y => y <=? x
  | PosInfinity, _ => true
  | _, NegInfinity => true
  | _, _ => false
  end.

(** [ToNumber] of the result of a property lookup: [undefined] gives [NaN]. *)
Definition ofLookup (v : option Z) : number :=
  match v with
  | Some z => Int z
  | None => NaN
  end.

(** [ToInt32] and [ToUint32] on integers *)
Definition toUint32 (z : Z) : Z := z mod 2 ^ 32.

Definition toInt32 (z : Z) : Z :=
  let u := toUint32 z in
  if u <? 2 ^ 31 then u else u - 2 ^ 32.

(** [Math.imul(a, b)] *)
Definition imul (a b : Z) : Z := toInt32 (toUint32 a * toUint32 b).

(** [a ^ b] *)
Definition xor (a b : Z) : Z := toInt32 (Z.lxor (toInt32 a) (toInt32 b)).

(** [a & b] *)
Definition and (a b : Z) : Z := toInt32 (Z.land (toInt32 a) (toInt32 b)).

(** [a >>> 0] *)
Definition ushr0 (a : Z) : Z := toUint32 a.

End Num.

(** ** Arithmetic on fractions

    [lexFraction] is written once over an interface of the four operations
    it uses, and read twice: in binary64, as the program runs it, and in
    exact rational arithmetic, which is the real-number value that the
    binary64 run approximates. *)

Class Arith (R : Type) : Type :=
  { ofInt : Z -> R;
    fadd : R -> R -> R;
    fmul : R -> R -> R;
    fdiv : R -> R -> R }.

Module Binary64.

Definition prec : Z := 53.
Definition emax : Z := 1024.

Definition ofZ (z : Z) : spec_float := binary_normalize prec emax z 0 false.
Definition add : spec_float -> spec_float -> spec_float := SFadd prec emax.
Definition mul : spec_float -> spec_float -> spec_float := SFmul prec emax.
Definition div : spec_float -> spec_float -> spec_float := SFdiv prec emax.

(** [Math.floor]: the integer part, rounded towards minus infinity, of
    [(-1)^s * m * 2^e]. *)
Definition floor (x : spec_float) : number :=
  match x with
  | S754_nan => NaN
  | S754_infinity s => Num.sign s
  | S754_zero _ => Int 0
  | S754_finite s m e => Int (Z.shiftl (cond_Zopp s (Zpos m)) e)
  end.

End Binary64.

#[export] Instance binary64 : Arith spec_float :=
  { ofInt := Binary64.ofZ;
    fadd := Binary64.add;
    fmul := Binary64.mul;
    fdiv := Binary64.div }.

#[export] Instance exact : Arith Q :=
  { ofInt := inject_Z;
    fadd := Qplus;
    fmul := Qmult;
    fdiv := Qdiv }.

(** ** Lexicographic fraction encoder *)

(** [CHAR_INDEX.has(ch) ? CHAR_INDEX.get(ch) : (BASE - 1)] *)
Definition charCode (ch : ascii) : Z :=
  match CHAR_INDEX ch with
  | Some code => code
  | None => BASE - 1
  end.

Section LexFraction.

Context {R : Type} `{Arith R}.

(** The loop [for (i = 0; i < Math.min(128, s.length); i++)]: [n] is the
    number of iterations that the bound 128 still allows, [s] the part of
    the string from index [i] on. *)
Fixpoint lexLoop (n : nat) (s : string) (total scale : R) : R :=
  match n, s with
  | S n', String ch rest =>
      let scale := fmul scale (ofInt BASE) in
      let code := charCode ch in
      let total := fadd total (fdiv (ofInt (code + 1)) scale) in
      lexLoop n' rest total scale
  | _, _ => total
  end.

Definition lexFractionIn (payload : string) : R :=
  let s := JS.toUpperCase payload in
  lexLoop 128 s (ofInt 0) (ofInt 1).

End LexFraction.

(** The encoder as the program runs it. *)
Definition lexFraction (payload : string) : spec_float :=
  lexFractionIn (R := spec_float) payload.

(** The same loop in exact arithmetic. *)
Definition lexFractionExact (payload : string) : Q :=
  lexFractionIn (R := Q) payload.

(** ** Slot assigner *)

(** The object [{ slot, payloadUsed }] that the slot assigner returns. *)
Record SlotResult : Type :=
  { slotOf : number;
    payloadUsedOf : string }.

Definition slotIndexWithinCategory (eff : string) : SlotResult :=
  let payload := payloadForEffective eff in
  let frac := lexFraction payload in
  let slot := Binary64.floor (Binary64.mul frac (Binary64.ofZ SLOTS_PER_CATEGORY)) in
  let slot :=
    if Num.geb slot (Int SLOTS_PER_CATEGORY) then Int (SLOTS_PER_CATEGORY - 1) else slot in
  {| slotOf := slot; payloadUsedOf := payload |}.

(** ** Stable nudge *)

Fixpoint hashLoop (s : string) (h : Z) : Z :=
  match s with
  | EmptyString => h
  | String c rest =>
      let h := Num.xor h (JS.charCodeOf c) in
      let h := Num.ushr0 (Num.imul h 0x01000193) in
      hashLoop rest h
  end.

Definition stableHash01 (s : string) : Z :=
  let h := hashLoop s (Num.ushr0 0x811c9dc5) in
  Num.and h 1.

(** ** The host *)

(** What the program takes from the machine it runs on.  A date is its time
    value: milliseconds since the epoch, or [NaN] for an invalid date.
    - [Date_local y monthIndex d h mi s] is
      [new Date(y, monthIndex, d, h, mi, s).getTime()], in the zone of the host;
    - [Date_toLocaleString] and [Date_toISOString] are the two renderings of a
      date.  ([toISOString] raises a [RangeError] on an invalid date; the date
      of a plan is never invalid, see [planForName_offset].) *)
Record Host : Type :=
  { Date_local : Z -> Z -> Z -> Z -> Z -> Z -> Z;
    Date_toLocaleString : number -> string;
    Date_toISOString : number -> string }.

(** ** Timestamp composer *)

Definition toUTCDateFromLocalBaseMinusSeconds (h : Host) (totalSeconds : number) : number :=
  let baseLocal := Int (Date_local h 2098 11 31 23 59 59) in
  let tsLocal := Num.sub baseLocal (Num.mul totalSeconds (Int 1000)) in
  tsLocal.

Record Plan : Type :=
  { ok : bool;
    input : string;
    effectiveName : string;
    category : string;
    categoryKey : string;
    categoryIndex : option Z;
    slot : number;
    offsetSeconds : number;
    payloadUsed : string;
    isoLocal : string;
    isoUTC : string;
    epochMillis : number }.

Definition planForName (h : Host) (originalName : string) : Plan :=
  let eff := normalizeToEffective originalName in
  let catKey := effectiveCategoryKey eff in
  let catIdx := CATEGORY_INDEX catKey in
  let sp := slotIndexWithinCategory eff in
  let nudge := stableHash01 eff in
  let catOffset := Num.mul (Num.ofLookup catIdx) (Int CATEGORY_BLOCK_SECONDS) in
  let nameOffset := Num.add (Num.mul (slotOf sp) (Int SECONDS_BETWEEN_ITEMS)) (Int nudge) in
  let offsetSec := Num.add catOffset nameOffset in
  let dt := toUTCDateFromLocalBaseMinusSeconds h offsetSec in
  {| ok := true;
     input := originalName;
     effectiveName := eff;
     category := categoryLabel eff;
     categoryKey := catKey;
     categoryIndex := catIdx;
     slot := slotOf sp;
     offsetSeconds := offsetSec;
     payloadUsed := payloadUsedOf sp;
     isoLocal := Date_toLocaleString h dt;
     isoUTC := Date_toISOString h dt;
     epochMillis := dt |}.

(** ** Request handler *)

(** The values that occur in the objects handed to [JSON.stringify]. *)
Inductive value : Type :=
| VUndefined
| VNull
| VBool (b : bool)
| VNumber (n : number)
| VString (s : string).

Definition object : Type := list (string * value).

Definition ofIndex (v : option Z) : value :=
  match v with
  | Some z => VNumber (Int z)
  | None => VUndefined
  end.

(** The own properties of a plan, in the order of the object literal. *)
Definition planObject (p : Plan) : object :=
  [ ("ok", VBool (ok p));
    ("input", VString (input p));
    ("effectiveName", VString (effectiveName p));
    ("category", VString (category p));
    ("categoryKey", VString (categoryKey p));
    ("categoryIndex", ofIndex (categoryIndex p));
    ("slot", VNumber (slot p));
    ("offsetSeconds", VNumber (offsetSeconds p));
    ("payloadUsed", VString (payloadUsed p));
    ("isoLocal", VString (isoLocal p));
    ("isoUTC", VString (isoUTC p));
    ("epochMillis", VNumber (epochMillis p)) ].

Definition missingName : object :=
  [ ("ok", VBool false); ("error", VString "Missing 'name' query param") ].

(** [JSON.stringify(o, null, 2)], kept as the members that the text lists: a
    member whose value is [undefined] is left out, a number that is not finite
    is written [null].  (The layout of the text is not modelled.) *)
Fixpoint JSON_stringify (o : object) : object :=
  match o with
  | [] => []
  | (_, VUndefined) :: r => JSON_stringify r
  | (k, VNumber (Int z)) :: r => (k, VNumber (Int z)) :: JSON_stringify r
  | (k, VNumber _) :: r => (k, VNull) :: JSON_stringify r
  | kv :: r => kv :: JSON_stringify r
  end.

Record URL : Type :=
  { pathname : string;
    searchParams : list (string * string) }.

(** [url.searchParams.get(name)]: the first value given for [name], or [null]. *)
Fixpoint searchParams_get (params : list (string * string)) (name : string)
  : option string :=
  match params with
  | [] => None
  | (k, v) :: r => if k === name then Some v else searchParams_get r name
  end.

Record Response : Type :=
  { body : object;
    status : Z;
    headers : list (string * string) }.

(** The handler is run in a monad that records the calls of the engine: the
    log holds the argument of each call of [planForName], in order. *)
Definition Logged (A : Type) : Type := (list string * A)%type.

Definition ret {A : Type} (a : A) : Logged A := ([], a).

Definition bind {A B : Type} (m : Logged A) (f : A -> Logged B) : Logged B :=
  let (l1, a) := m in
  let (l2, b) := f a in
  ((l1 ++ l2)%list, b).

Notation "x <- m ;; k" := (bind m (fun x => k))
  (at level 61, m at next level, right associativity).

Definition callPlanForName (h : Host) (name : string) : Logged Plan :=
  ([name], planForName h name).

(** Truthiness of a string: the empty string is the only falsy one. *)
Definition truthy (s : string) : bool := negb (s === "").

Definition handleApi (h : Host) (url : URL) : Logged Response :=
  let name :=
    match searchParams_get (searchParams url) "name" with
    | Some v => if truthy v then v else ""
    | None => ""
    end in
  o <- (if truthy name
        then p <- callPlanForName h name ;; ret (planObject p)
        else ret missingName) ;;
  ret {| body := JSON_stringify o;
         status := 200;
         headers := [ ("Content-Type", "application/json; charset=utf-8");
                      ("Cache-Control", "no-store");
                      ("Access-Control-Allow-Origin", "*") ] |}.

(** The listener of the [fetch] event: it answers the request itself, with
    [handleApi], when the path is [/api] or ends with [/api]; [None] is a
    request that it leaves to the network. *)
Definition fetchListener (h : Host) (url : URL) : option (Logged Response) :=
  if (pathname url === "/api") || JS.endsWith (pathname url) "/api"
  then Some (handleApi h url)
  else None.

(** ** A host in the UTC zone

    Used where a statement needs one concrete host: civil time is UTC, a
    date is rendered by [toISOString] as the language defines it, and by
    [toLocaleString] in the sv-SE form (year-month-day, 24 hours).  No plan
    has an invalid date, on which [toISOString] would raise an error; the
    rendering given for that case is the one of [toLocaleString]. *)

Module UTC.

(** Days since the epoch of the civil date [y]-[m]-[d] ([m] from 1). *)
Definition daysFromCivil (y m d : Z) : Z :=
  let y := if m <=? 2 then y - 1 else y in
  let era := y / 400 in
  let yoe := y - era * 400 in
  let doy := (153 * (if 2 <? m then m - 3 else m + 9) + 2) / 5 + d - 1 in
  let doe := yoe * 365 + yoe / 4 - yoe / 100 + doy in
  era * 146097 + doe - 719468.

(** The civil date (year, month from 1, day) of a day number. *)
Definition civilFromDays (z : Z) : Z * Z * Z :=
  let z := z + 719468 in
  let era := z / 146097 in
  let doe := z - era * 146097 in
  let yoe := (doe - doe / 1460 + doe / 36524 - doe / 146096) / 365 in
  let doy := doe - (365 * yoe + yoe / 4 - yoe / 100) in
  let mp := (5 * doy + 2) / 153 in
  let d := doy - (153 * mp + 2) / 5 + 1 in
  let m := if mp <? 10 then mp + 3 else mp - 9 in
  ((if m <=? 2 then yoe + era * 400 + 1 else yoe + era * 400), m, d).

Definition digit (z : Z) : string :=
  String (ascii_of_N (Z.to_N (48 + z mod 10))) EmptyString.

(** The last [n] decimal digits of [z], with leading zeros. *)
Fixpoint padded (n : nat) (z : Z) : string :=
  match n with
  | O => EmptyString
  | S n' => padded n' (z / 10) ++ digit z
  end.

Definition local (y mo d h mi s : Z) : Z :=
  ((daysFromCivil y (mo + 1) d * 24 + h) * 60 + mi) * 60000 + s * 1000.

Definition toISOString (t : number) : string :=
  match t with
  | Int ms =>
      let '(y, m, d) := civilFromDays (ms / 86400000) in
      let r := ms mod 86400000 in
      padded 4 y ++ "-" ++ padded 2 m ++ "-" ++ padded 2 d ++ "T"
      ++ padded 2 (r / 3600000) ++ ":" ++ padded 2 (r / 60000 mod 60) ++ ":"
      ++ padded 2 (r / 1000 mod 60) ++ "." ++ padded 3 (r mod 1000) ++ "Z"
  | _ => "Invalid Date"
  end.

Definition toLocaleString (t : number) : string :=
  match t with
  | Int ms =>
      let '(y, m, d) := civilFromDays (ms / 86400000) in
      let r := ms mod 86400000 in
      padded 4 y ++ "-" ++ padded 2 m ++ "-" ++ padded 2 d ++ " "
      ++ padded 2 (r / 3600000) ++ ":" ++ padded 2 (r / 60000 mod 60) ++ ":"
      ++ padded 2 (r / 1000 mod 60)
  | _ => "Invalid Date"
  end.

Definition host : Host :=
  {| Date_local := local;
     Date_toLocaleString := toLocaleString;
     Date_toISOString := toISOString |}.

End UTC.

(** * Definitions used in the statements *)

(** Binary64 values that are not negative: [+0], a positive finite value or
    [+Infinity]; in particular not [NaN]. *)
Definition nonneg (x : spec_float) : Prop :=
  match x with
  | S754_zero false | S754_infinity false | S754_finite false _ _ => True
  | _ => False
  end.

Definition positiveFinite (x : spec_float) : Prop :=
  match x with
  | S754_finite false _ _ => True
  | _ => False
  end.

(** Membership in the charset table. *)
Definition inCharset (c : ascii) : bool :=
  existsb (Ascii.eqb c) (JS.chars CHARSET).

(** The classifier in the words of the specification: the rule of a key of
    the category order table, and the first key of the table whose rule
    matches, [DEFAULT] when none does. *)
Definition ruleOfKey (key eff : string) : bool :=
  if key === "DEFAULT" then false
  else if key === "APPS" then eff === "APPS"
  else if key === "SYS_" then JS.startsWith eff "SYS_" || (eff === "SYS")
  else JS.startsWith eff key.

Fixpoint firstMatch (keys : list string) (eff : string) : string :=
  match keys with
  | [] => "DEFAULT"
  | key :: rest => if ruleOfKey key eff then key else firstMatch rest eff
  end.

Definition classifyByTable (eff : string) : string := firstMatch CATEGORY_ORDER eff.

(** The fraction in the words of the specification: the character at the
    1-based position [i] contributes [(rank + 1) / B^i], summed over the first
    128 characters at most. *)
Definition contribution (i : nat) (c : ascii) : Q :=
  (inject_Z (charCode c + 1) / inject_Z BASE ^ Z.of_nat i)%Q.

Fixpoint contributionsFrom (i : nat) (cs : list ascii) : Q :=
  match cs with
  | [] => 0%Q
  | c :: r => (contribution i c + contributionsFrom (S i) r)%Q
  end.

Definition fractionByPositions (payload : string) : Q :=
  contributionsFrom 1 (firstn 128 (JS.chars (JS.toUpperCase payload))).

(** [B^i] as the loop of [lexFraction] builds it. *)
Fixpoint scaleAt (i : nat) : Q :=
  match i with
  | O => inject_Z 1
  | S i' => (scaleAt i' * inject_Z BASE)%Q
  end.

(** Two plans that agree on every field but [input]. *)
Definition agreeBesidesInput (p q : Plan) : Prop :=
  ok p = ok q /\
  effectiveName p = effectiveName q /\
  category p = category q /\
  categoryKey p = categoryKey q /\
  categoryIndex p = categoryIndex q /\
  slot p = slot q /\
  offsetSeconds p = offsetSeconds q /\
  payloadUsed p = payloadUsed q /\
  isoLocal p = isoLocal q /\
  isoUTC p = isoUTC q /\
  epochMillis p = epochMillis q.

(** The second step of the normalizer alone: the built-in exact names. *)
Definition builtIns (n : string) : string :=
  if (n === "OSDXMB") || (n === "XEBPLUS") then "APP_" ++ n
  else if (n === "RESTART") || (n === "POWEROFF") then "RAA_" ++ n
  else if n === "NEUTRINO" then "RTE_" ++ n
  else if n === "BOOT" then "SYS_BOOT"
  else if n === "EXPLOITS" then "ZZY_EXPLOITS"
  else if (n === "BM") || (n === "MATRIXTEAM") || (n === "OPL") then "ZZZ_" ++ n
  else n.

(** The keys of the category order table that are prefixes of names. *)
Definition prefixKeys : list string :=
  filter (fun key => negb ((key === "APPS") || (key === "DEFAULT"))) CATEGORY_ORDER.

(** Whether a string holds a dash. *)
Definition hasDash (s : string) : bool :=
  existsb (Ascii.eqb "-"%char) (JS.chars s).

(** The ranks of the characters that the encoder reads from a payload. *)
Definition ranksOf (payload : string) : list Z :=
  map charCode (firstn 128 (JS.chars (JS.toUpperCase payload))).

(** Whether the number of code units of odd value in a string is odd. *)
Fixpoint oddUnits (s : string) : bool :=
  match s with
  | EmptyString => false
  | String c rest => xorb (Z.odd (JS.charCodeOf c)) (oddUnits rest)
  end.

(** The names of the members of a plan, in the order of the object. *)
Definition planMembers : list string :=
  [ "ok"; "input"; "effectiveName"; "category"; "categoryKey"; "categoryIndex";
    "slot"; "offsetSeconds"; "payloadUsed"; "isoLocal"; "isoUTC"; "epochMillis" ].

Definition isNull (v : value) : bool :=
  match v with
  | VNull => true
  | _ => false
  end.

(** * Properties *)

(** ** Binary64 values that are not negative

    The values that [lexFraction] handles are sums, products and quotients of
    values that are not negative; none of them is [NaN]. *)

Module Sign.

Lemma shr_1_nonneg mrs : 0 <= shr_m mrs -> 0 <= shr_m (shr_1 mrs).
Proof.
  destruct mrs as [m r s]; simpl.
  destruct m as [|[p|p|]|p]; simpl; lia.
Qed.

Lemma iter_shr_1_nonneg p : forall mrs,
  0 <= shr_m mrs -> 0 <= shr_m (iter_pos shr_1 p mrs).
Proof.
  induction p as [p IH|p IH|]; intros mrs Hm; simpl.
  - apply IH, IH, shr_1_nonneg, Hm.
  - apply IH, IH, Hm.
  - apply shr_1_nonneg, Hm.
Qed.

Lemma shr_nonneg mrs e n : 0 <= shr_m mrs -> 0 <= shr_m (fst (shr mrs e n)).
Proof.
  intros Hm. destruct n as [|p|p]; simpl; auto using iter_shr_1_nonneg.
Qed.

Lemma shr_record_of_loc_m m l : shr_m (shr_record_of_loc m l) = m.
Proof. destruct l as [|[]]; reflexivity. Qed.

Lemma shr_fexp_nonneg m e l :
  0 <= m -> 0 <= shr_m (fst (shr_fexp Binary64.prec Binary64.emax m e l)).
Proof.
  intros Hm. unfold shr_fexp. apply shr_nonneg.
  rewrite shr_record_of_loc_m. exact Hm.
Qed.

Lemma round_nearest_even_nonneg m l : 0 <= m -> 0 <= round_nearest_even m l.
Proof.
  intros Hm. destruct l as [|[]]; simpl; try lia.
  destruct (Z.even m); lia.
Qed.

Lemma binary_round_aux_nonneg m e l :
  0 <= m -> nonneg (binary_round_aux Binary64.prec Binary64.emax false m e l).
Proof.
  intros Hm. unfold binary_round_aux.
  pose proof (shr_fexp_nonneg m e l Hm) as H1.
  destruct (shr_fexp Binary64.prec Binary64.emax m e l) as [mrs1 e1]; simpl in H1.
  pose proof (shr_fexp_nonneg _ e1 loc_Exact
                (round_nearest_even_nonneg _ (loc_of_shr_record mrs1) H1)) as H2.
  destruct (shr_fexp Binary64.prec Binary64.emax _ e1 loc_Exact) as [mrs2 e2];
    simpl in H2.
  destruct (shr_m mrs2) as [|q|q]; simpl; try exact I; try lia.
  destruct (e2 <=? _); exact I.
Qed.

Lemma binary_round_nonneg m e :
  nonneg (binary_round Binary64.prec Binary64.emax false m e).
Proof.
  unfold binary_round.
  destruct (shl_align m e _) as [mz ez].
  apply binary_round_aux_nonneg. lia.
Qed.

Lemma mul_nonneg x y : nonneg x -> positiveFinite y -> nonneg (Binary64.mul x y).
Proof.
  destruct x as [[]|[]| |[] mx ex], y as [[]|[]| |[] my ey];
    simpl; try tauto.
  intros _ _. apply binary_round_aux_nonneg. lia.
Qed.

Lemma add_nonneg x y : nonneg x -> nonneg y -> nonneg (Binary64.add x y).
Proof.
  destruct x as [[]|[]| |[] mx ex], y as [[]|[]| |[] my ey];
    simpl; try tauto.
  intros _ _. apply binary_round_nonneg.
Qed.

Lemma div_nonneg x y : positiveFinite x -> nonneg y -> nonneg (Binary64.div x y).
Proof.
  destruct x as [[]|[]| |[] mx ex], y as [[]|[]| |[] my ey];
    simpl; try tauto.
  intros _ _. unfold SFdiv_core_binary.
  set (s := _ - _ - _).
  set (m' := match s with Z0 => _ | Zpos _ => _ | Zneg _ => _ end).
  assert (Hm' : 0 <= m').
  { subst m'. destruct s; try lia. apply Z.shiftl_nonneg. lia. }
  pose proof (Z_div_mod m' (Zpos my) eq_refl) as Hdiv.
  destruct (Z.div_eucl m' (Zpos my)) as [q r].
  apply binary_round_aux_nonneg. nia.
Qed.

Lemma floor_nonneg x :
  nonneg x ->
  Binary64.floor x = PosInfinity \/ exists z, Binary64.floor x = Int z /\ 0 <= z.
Proof.
  destruct x as [[]|[]| |[] m e]; simpl; try tauto; intros _.
  - right. exists 0. split; [reflexivity | lia].
  - right. eexists. split; [reflexivity |]. apply Z.shiftl_nonneg. lia.
Qed.

End Sign.

(** ** The charset table *)

Lemma charCode_range_bool (c : ascii) :
  (0 <=? charCode c) && (charCode c <=? 39) = true.
Proof. destruct c as [[] [] [] [] [] [] [] []]; vm_compute; reflexivity. Qed.

Lemma charCode_range (c : ascii) : 0 <= charCode c <= 39.
Proof.
  pose proof (charCode_range_bool c) as H.
  apply andb_true_iff in H. destruct H as [H1 H2].
  apply Z.leb_le in H1. apply Z.leb_le in H2. lia.
Qed.

Lemma charCode_table (c : ascii) :
  if inCharset c
  then String.get (Z.to_nat (charCode c)) CHARSET = Some c
  else charCode c = 39.
Proof. destruct c as [[] [] [] [] [] [] [] []]; vm_compute; reflexivity. Qed.

Lemma digit_positiveFinite (c : ascii) :
  positiveFinite (Binary64.ofZ (charCode c + 1)).
Proof. destruct c as [[] [] [] [] [] [] [] []]; vm_compute; exact I. Qed.

(** ** The fraction is never negative and never [NaN] *)

Lemma BASE_positiveFinite : positiveFinite (Binary64.ofZ BASE).
Proof. vm_compute. exact I. Qed.

Lemma lexLoop_nonneg (n : nat) : forall (s : string) (total scale : spec_float),
  nonneg total -> nonneg scale -> nonneg (lexLoop n s total scale).
Proof.
  induction n as [|n IH]; intros s total scale Ht Hs.
  - exact Ht.
  - destruct s as [|ch rest]; [exact Ht |].
    cbn [lexLoop].
    assert (Hs' : nonneg (Binary64.mul scale (Binary64.ofZ BASE)))
      by (apply Sign.mul_nonneg; [exact Hs | exact BASE_positiveFinite]).
    apply IH; [| exact Hs'].
    apply Sign.add_nonneg; [exact Ht |].
    apply Sign.div_nonneg; [apply digit_positiveFinite | exact Hs'].
Qed.

Lemma lexFraction_nonneg (payload : string) : nonneg (lexFraction payload).
Proof.
  unfold lexFraction, lexFractionIn.
  apply lexLoop_nonneg; vm_compute; exact I.
Qed.

(** ** Slot, nudge and category index of an effective name *)

Lemma slotIndexWithinCategory_range (eff : string) :
  exists z, slotOf (slotIndexWithinCategory eff) = Int z /\ 0 <= z < SLOTS_PER_CATEGORY.
Proof.
  unfold slotIndexWithinCategory; cbn [slotOf].
  set (product := Binary64.mul _ _).
  assert (Hp : nonneg product).
  { apply Sign.mul_nonneg; [apply lexFraction_nonneg | vm_compute; exact I]. }
  destruct (Sign.floor_nonneg product Hp) as [Hinf | [z [Hz Hz0]]].
  - rewrite Hinf. cbn [Num.geb].
    exists (SLOTS_PER_CATEGORY - 1). split; [reflexivity | unfold SLOTS_PER_CATEGORY; lia].
  - rewrite Hz. cbn [Num.geb].
    destruct (SLOTS_PER_CATEGORY <=? z) eqn:Hge.
    + exists (SLOTS_PER_CATEGORY - 1). split; [reflexivity | unfold SLOTS_PER_CATEGORY; lia].
    + apply Z.leb_gt in Hge. exists z. split; [reflexivity | lia].
Qed.

Lemma stableHash01_range (s : string) : stableHash01 s = 0 \/ stableHash01 s = 1.
Proof.
  unfold stableHash01, Num.and.
  set (h := Num.toInt32 (hashLoop s _)).
  change (Num.toInt32 1) with (Z.ones 1).
  rewrite Z.land_ones by lia.
  assert (Hm : 0 <= h mod 2 ^ 1 < 2) by (apply Z.mod_pos_bound; lia).
  assert (Hc : h mod 2 ^ 1 = 0 \/ h mod 2 ^ 1 = 1) by lia.
  destruct Hc as [Hc | Hc]; rewrite Hc; [left | right]; reflexivity.
Qed.

Lemma effectiveCategoryKey_index (eff : string) :
  exists i, CATEGORY_INDEX (effectiveCategoryKey eff) = Some i /\ 0 <= i <= 12 /\
            nth_error CATEGORY_ORDER (Z.to_nat i) = Some (effectiveCategoryKey eff).
Proof.
  unfold effectiveCategoryKey.
  repeat match goal with
         | |- context [if ?b then _ else _] => destruct b
         end;
    eexists; (split; [reflexivity | split; [lia | reflexivity]]).
Qed.

(** The offset of a plan is [index * block + slot * seconds + nudge]; with the
    bounds of the three parts it is an integer of at most 13 * 86400, far
    inside the range where binary64 is exact on integers. *)
Lemma planForName_offset (h : Host) (s : string) :
  exists i z n,
    categoryIndex (planForName h s) = Some i /\ 0 <= i <= 12 /\
    slot (planForName h s) = Int z /\ 0 <= z < SLOTS_PER_CATEGORY /\
    0 <= n <= 1 /\
    offsetSeconds (planForName h s)
    = Int (i * CATEGORY_BLOCK_SECONDS + (z * SECONDS_BETWEEN_ITEMS + n)).
Proof.
  unfold planForName; cbn [categoryIndex slot offsetSeconds].
  set (eff := normalizeToEffective s).
  destruct (effectiveCategoryKey_index eff) as [i [Hi [Hir _]]].
  destruct (slotIndexWithinCategory_range eff) as [z [Hz Hzr]].
  exists i, z, (stableHash01 eff).
  rewrite Hi, Hz. cbn [Num.ofLookup Num.mul Num.add].
  repeat split; try lia; destruct (stableHash01_range eff) as [Hn | Hn]; rewrite Hn; lia.
Qed.

(** Categories never overtake one another: a smaller index gives an offset
    that is not larger. *)
Lemma offsets_follow_category_order (h : Host) (s1 s2 : string) (i1 i2 z1 z2 : Z) :
  categoryIndex (planForName h s1) = Some i1 ->
  categoryIndex (planForName h s2) = Some i2 ->
  offsetSeconds (planForName h s1) = Int z1 ->
  offsetSeconds (planForName h s2) = Int z2 ->
  i1 < i2 -> z1 <= z2.
Proof.
  intros C1 C2 O1 O2 Hlt.
  destruct (planForName_offset h s1) as [j1 [y1 [n1 [Hc1 [_ [_ [Hy1 [Hn1 Ho1]]]]]]]].
  destruct (planForName_offset h s2) as [j2 [y2 [n2 [Hc2 [_ [_ [Hy2 [Hn2 Ho2]]]]]]]].
  rewrite C1 in Hc1. rewrite C2 in Hc2. rewrite O1 in Ho1. rewrite O2 in Ho2.
  injection Hc1 as <-. injection Hc2 as <-.
  injection Ho1 as ->. injection Ho2 as ->.
  unfold CATEGORY_BLOCK_SECONDS, SLOTS_PER_CATEGORY, SECONDS_BETWEEN_ITEMS in *.
  lia.
Qed.

(** ** The loop of the encoder in exact arithmetic *)

Lemma scaleAt_power (i : nat) : (scaleAt i == inject_Z BASE ^ Z.of_nat i)%Q.
Proof.
  induction i as [|i IH].
  - reflexivity.
  - cbn [scaleAt]. rewrite IH, Nat2Z.inj_succ.
    unfold Z.succ. rewrite Qpower_plus by (vm_compute; discriminate).
    reflexivity.
Qed.

Lemma lexLoop_exact (n : nat) : forall (s : string) (total : Q) (i : nat),
  (lexLoop n s total (scaleAt i)
   == total + contributionsFrom (S i) (firstn n (JS.chars s)))%Q.
Proof.
  induction n as [|n IH]; intros s total i.
  - cbn [lexLoop firstn contributionsFrom]. rewrite Qplus_0_r. reflexivity.
  - destruct s as [|ch rest].
    + cbn [lexLoop JS.chars list_ascii_of_string firstn contributionsFrom].
      rewrite Qplus_0_r. reflexivity.
    + change (lexLoop (S n) (String ch rest) total (scaleAt i))
        with (lexLoop n rest (total + inject_Z (charCode ch + 1) / scaleAt (S i))%Q
                (scaleAt (S i))).
      rewrite IH.
      change (firstn (S n) (JS.chars (String ch rest)))
        with (ch :: firstn n (JS.chars rest)).
      cbn [contributionsFrom]. unfold contribution at 1.
      rewrite (scaleAt_power (S i)), Qplus_assoc.
      reflexivity.
Qed.

(** A payload whose first character has the largest rank has a fraction of 1
    or more: that character alone contributes [40 / 40]. *)

Lemma contribution_nonneg (i : nat) (c : ascii) : (0 <= contribution i c)%Q.
Proof.
  unfold contribution.
  apply Qle_shift_div_l.
  - apply Qpower_0_lt. reflexivity.
  - rewrite Qmult_0_l.
    change 0%Q with (inject_Z 0). rewrite <- Zle_Qle.
    pose proof (charCode_range c). lia.
Qed.

Lemma contributionsFrom_nonneg (cs : list ascii) : forall i : nat,
  (0 <= contributionsFrom i cs)%Q.
Proof.
  induction cs as [|c r IH]; intro i; cbn [contributionsFrom].
  - apply Qle_refl.
  - change 0%Q with (0 + 0)%Q.
    apply Qplus_le_compat; [apply contribution_nonneg | apply IH].
Qed.

Lemma fraction_at_least_one (c : ascii) (rest : string) :
  charCode (JS.upperChar c) = 39 -> (1 <= lexFractionExact (String c rest))%Q.
Proof.
  intro Hc. unfold lexFractionExact, lexFractionIn.
  change (ofInt 1) with (scaleAt 0).
  rewrite lexLoop_exact.
  change (firstn 128 (JS.chars (JS.toUpperCase (String c rest))))
    with (JS.upperChar c :: firstn 127 (JS.chars (JS.toUpperCase rest))).
  cbn [contributionsFrom].
  assert (H1 : (contribution 1 (JS.upperChar c) == 1)%Q)
    by (unfold contribution; rewrite Hc; reflexivity).
  rewrite H1.
  change (ofInt 0) with 0%Q. rewrite Qplus_0_l.
  rewrite <- (Qplus_0_r 1) at 1.
  apply Qplus_le_compat; [apply Qle_refl | apply contributionsFrom_nonneg].
Qed.

(** ** The time fields of a plan are those of its offset *)

Lemma planForName_times (h : Host) (s : string) :
  let dt := toUTCDateFromLocalBaseMinusSeconds h (offsetSeconds (planForName h s)) in
  epochMillis (planForName h s) = dt /\
  isoLocal (planForName h s) = Date_toLocaleString h dt /\
  isoUTC (planForName h s) = Date_toISOString h dt.
Proof. repeat split. Qed.

(** All the fields of a plan but [input] are functions of the effective
    name. *)
Lemma plans_of_one_effective_name (h : Host) (s1 s2 : string) :
  normalizeToEffective s1 = normalizeToEffective s2 ->
  agreeBesidesInput (planForName h s1) (planForName h s2).
Proof.
  intro E. unfold agreeBesidesInput, planForName.
  cbn [ok effectiveName category categoryKey categoryIndex slot offsetSeconds
       payloadUsed isoLocal isoUTC epochMillis].
  rewrite E. repeat split.
Qed.

(** ** The claims *)

(** C1.  Strict separation of categories fails at the border of two blocks.
    The name [RTE_.] is in category 8, takes the last slot (86399) and has
    nudge 1; the name [-] is in category 9 (DEFAULT), takes slot 0 and has
    nudge 0.  Both get the offset 9 * 86400 = 777600: the category with the
    smaller index is not strictly newer. *)
Theorem C1_border_tie (h : Host) :
  let p1 := planForName h "RTE_." in
  let p2 := planForName h "-" in
  categoryIndex p1 = Some 8 /\ categoryIndex p2 = Some 9 /\
  slot p1 = Int 86399 /\ stableHash01 (effectiveName p1) = 1 /\
  slot p2 = Int 0 /\ stableHash01 (effectiveName p2) = 0 /\
  offsetSeconds p1 = Int 777600 /\ offsetSeconds p2 = Int 777600 /\
  epochMillis p1 = epochMillis p2.
Proof.
  intros p1 p2.
  assert (O1 : offsetSeconds p1 = Int 777600) by (vm_compute; reflexivity).
  assert (O2 : offsetSeconds p2 = Int 777600) by (vm_compute; reflexivity).
  do 6 (split; [vm_compute; reflexivity |]).
  split; [exact O1 |]. split; [exact O2 |].
  subst p1 p2.
  destruct (planForName_times h "RTE_.") as [-> _].
  destruct (planForName_times h "-") as [-> _].
  rewrite O1, O2. reflexivity.
Qed.

(** C2.  The fraction is not always below 1.  The payload [.] has the largest
    rank, 39, and contributes (39 + 1) / 40 = 1: the encoder returns exactly
    1, in binary64 and in exact arithmetic alike; [..] gives more than 1.  The
    product with the number of slots is then exactly 86400, so the clamp of
    the slot is reached without any rounding.  The empty payload does give
    0. *)
Theorem C2_fraction_reaches_one :
  lexFraction "." = Binary64.ofZ 1 /\
  (lexFractionExact "." == 1)%Q /\
  ~ (lexFractionExact "." < 1)%Q /\
  (1 < lexFractionExact "..")%Q /\
  Binary64.floor (Binary64.mul (lexFraction ".") (Binary64.ofZ SLOTS_PER_CATEGORY))
  = Int SLOTS_PER_CATEGORY /\
  slotOf (slotIndexWithinCategory ".") = Int (SLOTS_PER_CATEGORY - 1) /\
  lexFraction "" = Binary64.ofZ 0 /\
  (lexFractionExact "" == 0)%Q.
Proof.
  repeat split; try (vm_compute; reflexivity).
  vm_compute. intro H. discriminate H.
Qed.

(** C3, as the specification states it, fails: the table has 40 characters,
    not 41, the base is 40, and a character outside the table gets rank 39,
    not 40. *)
Lemma C3_charset_has_40_characters :
  String.length CHARSET <> 41%nat /\ BASE <> 41 /\ charCode "~" <> 40.
Proof. vm_compute. repeat split; intro H; discriminate H. Qed.

(** C3, amended.  The charset table is a sequence of exactly 40 characters;
    the rank of a character is its position in the table, from 0 to 39, and a
    character outside the table has the largest rank, 39.  The base is 40, and
    the loop of the encoder, in exact arithmetic, is the sum of
    [(rank + 1) / 40^i] over the 1-based positions [i] of the first 128
    characters at most. *)
Theorem C3_charset_and_fraction :
  String.length CHARSET = 40%nat /\
  BASE = 40 /\
  (forall c, 0 <= charCode c <= 39) /\
  (forall c, if inCharset c
             then String.get (Z.to_nat (charCode c)) CHARSET = Some c
             else charCode c = 39) /\
  (forall payload, (lexFractionExact payload == fractionByPositions payload)%Q).
Proof.
  split; [reflexivity |]. split; [reflexivity |].
  split; [exact charCode_range |]. split; [exact charCode_table |].
  intro payload. unfold lexFractionExact, lexFractionIn, fractionByPositions.
  change (ofInt 1) with (scaleAt 0).
  rewrite lexLoop_exact. apply Qplus_0_l.
Qed.

(** C4, as the specification states it, fails: the plans of [  boot ] and of
    [BOOT] are not equal, since each one carries its own input. *)
Lemma C4_plans_differ_in_input :
  planForName UTC.host "  boot " <> planForName UTC.host "BOOT".
Proof.
  intro H. apply (f_equal input) in H. vm_compute in H. discriminate H.
Qed.

(** C4, amended.  The plans of [  boot ], [BOOT] and [Boot] have the same
    effective name, [SYS_BOOT], and agree on every field but [input], which
    gives back the string as it was received. *)
Theorem C4_case_and_whitespace (h : Host) :
  let a := planForName h "  boot " in
  let b := planForName h "BOOT" in
  let c := planForName h "Boot" in
  effectiveName a = "SYS_BOOT" /\
  agreeBesidesInput a b /\ agreeBesidesInput b c /\
  input a = "  boot " /\ input b = "BOOT" /\ input c = "Boot".
Proof.
  cbv zeta.
  split; [vm_compute; reflexivity |].
  split; [apply plans_of_one_effective_name; vm_compute; reflexivity |].
  split; [apply plans_of_one_effective_name; vm_compute; reflexivity |].
  repeat split.
Qed.

(** C5.  The slot of the plan of a name is computed from the name: it is the
    floor of the product of the fraction of the payload of its effective name
    and the number of slots, replaced by the last slot when it reaches or
    exceeds the number of slots; it is an integer from 0 to the number of
    slots excluded. *)
Theorem C5_slot_bounded (h : Host) (s : string) :
  let p := planForName h s in
  let payload := payloadForEffective (normalizeToEffective s) in
  let floored :=
    Binary64.floor (Binary64.mul (lexFraction payload)
                                 (Binary64.ofZ SLOTS_PER_CATEGORY)) in
  payloadUsed p = payload /\
  slot p = (if Num.geb floored (Int SLOTS_PER_CATEGORY)
            then Int (SLOTS_PER_CATEGORY - 1) else floored) /\
  exists z, slot p = Int z /\ 0 <= z < SLOTS_PER_CATEGORY.
Proof.
  split; [reflexivity |]. split; [reflexivity |].
  apply slotIndexWithinCategory_range.
Qed.

(** C6.  The known fixtures: [RESTART] is [RAA_RESTART] in [RAA_], [BOOT] is
    [SYS_BOOT] in [SYS_], and the empty name is in [DEFAULT] with an empty
    payload and slot 0. *)
Theorem C6_known_fixtures (h : Host) :
  effectiveName (planForName h "RESTART") = "RAA_RESTART" /\
  categoryKey (planForName h "RESTART") = "RAA_" /\
  effectiveName (planForName h "BOOT") = "SYS_BOOT" /\
  categoryKey (planForName h "BOOT") = "SYS_" /\
  categoryKey (planForName h "") = "DEFAULT" /\
  payloadUsed (planForName h "") = "" /\
  slot (planForName h "") = Int 0.
Proof. vm_compute. repeat split. Qed.

(** C7.  The classifier returns the first key of the category order table
    whose rule matches the effective name, and [DEFAULT] when none does; the
    rule of a key is the prefix test with that key of four characters, but for
    [APPS], which must be the whole name, and for [SYS_], which also takes the
    bare name [SYS]. *)
Theorem C7_first_matching_rule (eff : string) :
  effectiveCategoryKey eff = classifyByTable eff /\
  forallb (fun key => (key === "DEFAULT") || Nat.eqb (String.length key) 4)
          CATEGORY_ORDER = true.
Proof. split; reflexivity. Qed.

(** C8.  Without a name, or with an empty one, the handler answers with the
    failure object and the engine is not called; with a name it calls the
    engine once, on that name, and answers with the members of the plan, the
    first of which is [ok], set to true. *)
Theorem C8_missing_name (h : Host) (url : URL) :
  let logged := handleApi h url in
  match searchParams_get (searchParams url) "name" with
  | None | Some EmptyString =>
      fst logged = [] /\
      body (snd logged)
      = [ ("ok", VBool false); ("error", VString "Missing 'name' query param") ]
  | Some name =>
      fst logged = [name] /\
      body (snd logged) = JSON_stringify (planObject (planForName h name)) /\
      hd_error (body (snd logged)) = Some ("ok", VBool true)
  end.
Proof.
  unfold handleApi.
  destruct (searchParams_get (searchParams url) "name") as [[|c v]|];
    repeat split.
Qed.

(** C9.  Every response of the handler has status 200, the one that reports a
    missing name included. *)
Theorem C9_status_200 (h : Host) (url : URL) :
  status (snd (handleApi h url)) = 200 /\
  snd (handleApi h {| pathname := "/api"; searchParams := [] |})
  = {| body := [ ("ok", VBool false);
                 ("error", VString "Missing 'name' query param") ];
       status := 200;
       headers := [ ("Content-Type", "application/json; charset=utf-8");
                    ("Cache-Control", "no-store");
                    ("Access-Control-Allow-Origin", "*") ] |}.
Proof.
  split; [| reflexivity].
  unfold handleApi.
  destruct (searchParams_get (searchParams url) "name") as [[|c v]|]; reflexivity.
Qed.

(** C10.  The category key of a plan is one of the 13 entries of the category
    order table, its index is defined and is the position of the key in the
    table, from 0 to 12, and its offset is an integer that is not negative. *)
Theorem C10_index_defined (h : Host) (s : string) :
  let p := planForName h s in
  List.length CATEGORY_ORDER = 13%nat /\
  In (categoryKey p) CATEGORY_ORDER /\
  (exists i, categoryIndex p = Some i /\ 0 <= i <= 12 /\
             nth_error CATEGORY_ORDER (Z.to_nat i) = Some (categoryKey p)) /\
  (exists z, offsetSeconds p = Int z /\ 0 <= z) /\
  (exists t, epochMillis p = Int t).
Proof.
  cbv zeta.
  destruct (effectiveCategoryKey_index (normalizeToEffective s)) as [i [Hi [Hr Hn]]].
  destruct (planForName_offset h s) as [j [z [n [Hc [Hj [Hs [Hz [Hnr Ho]]]]]]]].
  split; [reflexivity |].
  split; [exact (nth_error_In _ _ Hn) |].
  split; [exists i; auto |].
  split.
  - eexists. split; [exact Ho |].
    unfold CATEGORY_BLOCK_SECONDS, SLOTS_PER_CATEGORY, SECONDS_BETWEEN_ITEMS in *. nia.
  - destruct (planForName_times h s) as [-> _].
    rewrite Ho. eexists. reflexivity.
Qed.

(** * Further properties of the code *)

(** ** Trimming and upper-casing *)

Lemma upperChar_idempotent (c : ascii) : JS.upperChar (JS.upperChar c) = JS.upperChar c.
Proof. destruct c as [[] [] [] [] [] [] [] []]; reflexivity. Qed.

Lemma isWhiteSpace_upperChar (c : ascii) :
  JS.isWhiteSpace (JS.upperChar c) = JS.isWhiteSpace c.
Proof. destruct c as [[] [] [] [] [] [] [] []]; reflexivity. Qed.

Lemma toUpperCase_idempotent (s : string) :
  JS.toUpperCase (JS.toUpperCase s) = JS.toUpperCase s.
Proof.
  induction s as [|c r IH]; cbn [JS.toUpperCase]; [reflexivity |].
  rewrite upperChar_idempotent, IH. reflexivity.
Qed.

Lemma trimStart_toUpperCase (s : string) :
  JS.trimStart (JS.toUpperCase s) = JS.toUpperCase (JS.trimStart s).
Proof.
  induction s as [|c r IH]; cbn [JS.toUpperCase JS.trimStart]; [reflexivity |].
  rewrite isWhiteSpace_upperChar.
  destruct (JS.isWhiteSpace c); [exact IH | reflexivity].
Qed.

Lemma trimEnd_toUpperCase (s : string) :
  JS.trimEnd (JS.toUpperCase s) = JS.toUpperCase (JS.trimEnd s).
Proof.
  induction s as [|c r IH]; cbn [JS.toUpperCase JS.trimEnd]; [reflexivity |].
  rewrite IH, isWhiteSpace_upperChar.
  destruct (JS.trimEnd r) as [|d t]; cbn [JS.toUpperCase].
  - destruct (JS.isWhiteSpace c); reflexivity.
  - reflexivity.
Qed.

Lemma trim_toUpperCase (s : string) :
  JS.trim (JS.toUpperCase s) = JS.toUpperCase (JS.trim s).
Proof.
  unfold JS.trim. rewrite trimStart_toUpperCase. apply trimEnd_toUpperCase.
Qed.

Lemma trimEnd_idempotent (s : string) : JS.trimEnd (JS.trimEnd s) = JS.trimEnd s.
Proof.
  induction s as [|c r IH]; cbn [JS.trimEnd]; [reflexivity |].
  destruct (JS.trimEnd r) as [|d t] eqn:E.
  - destruct (JS.isWhiteSpace c) eqn:W; cbn [JS.trimEnd]; [reflexivity |].
    rewrite W. reflexivity.
  - cbn [JS.trimEnd] in IH |- *.
    destruct (JS.trimEnd t) as [|d' t'].
    + destruct (JS.isWhiteSpace d); [discriminate IH |].
      injection IH as <-. reflexivity.
    + rewrite IH. reflexivity.
Qed.

(** A string that does not start with white space. *)
Lemma trimStart_clean (s : string) :
  match JS.trimStart s with
  | EmptyString => True
  | String c _ => JS.isWhiteSpace c = false
  end.
Proof.
  induction s as [|c r IH]; cbn [JS.trimStart]; [exact I |].
  destruct (JS.isWhiteSpace c) eqn:W; [exact IH | exact W].
Qed.

Lemma trimStart_trim (s : string) : JS.trimStart (JS.trim s) = JS.trim s.
Proof.
  unfold JS.trim.
  pose proof (trimStart_clean s) as H.
  destruct (JS.trimStart s) as [|c r]; [reflexivity |].
  cbn [JS.trimEnd].
  destruct (JS.trimEnd r); rewrite ?H; cbn [JS.trimStart]; rewrite H; reflexivity.
Qed.

Lemma trim_idempotent (s : string) : JS.trim (JS.trim s) = JS.trim s.
Proof.
  unfold JS.trim at 1. rewrite trimStart_trim.
  unfold JS.trim. apply trimEnd_idempotent.
Qed.

(** The name that the normalizer resolves is its own trimmed upper case. *)
Lemma canonical_fixed (s : string) :
  JS.toUpperCase (JS.trim (JS.toUpperCase (JS.trim s))) = JS.toUpperCase (JS.trim s).
Proof.
  rewrite trim_toUpperCase, trim_idempotent. apply toUpperCase_idempotent.
Qed.

(** ** The normalizer *)

(** Case analysis on the tests [n === k] of a goal: where a test holds, [n]
    is replaced by [k]. *)
Ltac split_name_tests n :=
  repeat match goal with
         | |- context [String.eqb n ?k] =>
             let E := fresh "E" in
             destruct (String.eqb n k) eqn:E;
             [apply String.eqb_eq in E; subst n |]
         end.

Lemma table_or_builtIns (n : string) :
  match configuredMapping UNPREFIXED_IN_CATEGORY n with
  | Some eff => eff
  | None => n
  end = builtIns n
  /\ match configuredMapping UNPREFIXED_IN_CATEGORY n with
     | Some eff => eff
     | None => builtIns n
     end = builtIns n.
Proof.
  unfold builtIns.
  cbn [configuredMapping UNPREFIXED_IN_CATEGORY JS.includes existsb].
  split_name_tests n; split; reflexivity.
Qed.

Lemma normalizeToEffective_builtIns (name : string) :
  normalizeToEffective name = builtIns (JS.toUpperCase (JS.trim name)).
Proof. exact (proj2 (table_or_builtIns (JS.toUpperCase (JS.trim name)))). Qed.

(** X1.  The two layers of the normalizer agree: the configured table and the
    built-in names resolve every name alike, so that either layer alone
    computes the effective name. *)
Theorem X1_table_and_builtIns_agree (name : string) :
  let n := JS.toUpperCase (JS.trim name) in
  normalizeToEffective name = builtIns n /\
  normalizeToEffective name
  = match configuredMapping UNPREFIXED_IN_CATEGORY n with
    | Some eff => eff
    | None => n
    end.
Proof.
  cbv zeta.
  destruct (table_or_builtIns (JS.toUpperCase (JS.trim name))) as [H1 H2].
  split; [exact H2 | rewrite H1; exact H2].
Qed.

Lemma builtIns_fixed (n : string) :
  JS.toUpperCase (JS.trim n) = n ->
  JS.toUpperCase (JS.trim (builtIns n)) = builtIns n /\
  builtIns (builtIns n) = builtIns n.
Proof.
  intro Hn.
  assert (H : builtIns n = n \/ JS.toUpperCase (JS.trim (builtIns n)) = builtIns n
                                /\ builtIns (builtIns n) = builtIns n).
  { unfold builtIns at 1 2 3 5.
    split_name_tests n; try (right; split; reflexivity).
    left. reflexivity. }
  destruct H as [H | H]; [| exact H].
  rewrite !H. split; [exact Hn | reflexivity].
Qed.

(** X2.  The normalizer is idempotent: an effective name is its own effective
    name.  The plan of an effective name is the plan of any name that has it,
    but for the field [input]. *)
Theorem X2_normalizer_idempotent (h : Host) (name : string) :
  normalizeToEffective (normalizeToEffective name) = normalizeToEffective name /\
  agreeBesidesInput (planForName h (normalizeToEffective name)) (planForName h name).
Proof.
  assert (E : normalizeToEffective (normalizeToEffective name)
              = normalizeToEffective name).
  { rewrite (normalizeToEffective_builtIns (normalizeToEffective name)).
    rewrite (normalizeToEffective_builtIns name).
    destruct (builtIns_fixed _ (canonical_fixed name)) as [-> ->]. reflexivity. }
  split; [exact E |].
  apply plans_of_one_effective_name, E.
Qed.

(** X3.  The normalizer does not see the case of the letters of a name, nor
    the white space around it: the plans of a name, of its upper case and of
    its trimmed form agree on every field but [input]. *)
Theorem X3_case_and_space_insensitive (h : Host) (name : string) :
  normalizeToEffective (JS.toUpperCase name) = normalizeToEffective name /\
  normalizeToEffective (JS.trim name) = normalizeToEffective name /\
  agreeBesidesInput (planForName h (JS.toUpperCase name)) (planForName h name) /\
  agreeBesidesInput (planForName h (JS.trim name)) (planForName h name).
Proof.
  assert (U : normalizeToEffective (JS.toUpperCase name) = normalizeToEffective name).
  { unfold normalizeToEffective.
    rewrite trim_toUpperCase, toUpperCase_idempotent. reflexivity. }
  assert (T : normalizeToEffective (JS.trim name) = normalizeToEffective name).
  { unfold normalizeToEffective. rewrite trim_idempotent. reflexivity. }
  repeat split; try exact U; try exact T;
    first [ apply (plans_of_one_effective_name h _ _ U)
          | apply (plans_of_one_effective_name h _ _ T) ].
Qed.

(** X4.  A name of the configured table is put in the category under which
    the table lists it: its effective name is the key of that category
    followed by the name, and the name itself is the payload. *)
Theorem X4_configured_names (h : Host) (catKey : string) (list : list string)
  (n : string) :
  In (catKey, list) UNPREFIXED_IN_CATEGORY -> In n list ->
  effectiveName (planForName h n) = catKey ++ n /\
  categoryKey (planForName h n) = catKey /\
  payloadUsed (planForName h n) = n.
Proof.
  intros Hentry Hn. cbn [In UNPREFIXED_IN_CATEGORY] in Hentry.
  repeat match goal with
         | H : _ \/ _ |- _ => destruct H as [H | H]
         | H : (_, _) = (_, _) |- _ => injection H as <- <-
         | H : In _ _ |- _ => progress cbn [In] in H
         | H : False |- _ => destruct H
         | H : _ = n |- _ => subst n
         end;
    vm_compute; repeat split.
Qed.

Lemma X4_configured_names_witness :
  In ("RAA_", ["RESTART"; "POWEROFF"]) UNPREFIXED_IN_CATEGORY /\
  In "POWEROFF" ["RESTART"; "POWEROFF"] /\
  effectiveName (planForName UTC.host "POWEROFF") = "RAA_POWEROFF" /\
  categoryKey (planForName UTC.host "POWEROFF") = "RAA_" /\
  payloadUsed (planForName UTC.host "POWEROFF") = "POWEROFF".
Proof.
  assert (H1 : In ("RAA_", ["RESTART"; "POWEROFF"]) UNPREFIXED_IN_CATEGORY)
    by (cbn; tauto).
  assert (H2 : In "POWEROFF" ["RESTART"; "POWEROFF"]) by (cbn; tauto).
  split; [exact H1 |]. split; [exact H2 |].
  exact (X4_configured_names UTC.host _ _ _ H1 H2).
Defined.

(** ** The payload *)

Lemma removeDashes_hasDash (s : string) : hasDash (JS.removeDashes s) = false.
Proof.
  unfold hasDash.
  induction s as [|c r IH]; cbn [JS.removeDashes]; [reflexivity |].
  destruct (Ascii.eqb c "-") eqn:E; [exact IH |].
  cbn [JS.chars list_ascii_of_string existsb].
  rewrite Ascii.eqb_sym, E. exact IH.
Qed.

Lemma removeDashes_idempotent (s : string) :
  JS.removeDashes (JS.removeDashes s) = JS.removeDashes s.
Proof.
  induction s as [|c r IH]; cbn [JS.removeDashes]; [reflexivity |].
  destruct (Ascii.eqb c "-") eqn:E; [exact IH |].
  cbn [JS.removeDashes]. rewrite E, IH. reflexivity.
Qed.

(** X5.  A name that starts with one of the eleven prefix keys is in the
    category of that key, and its payload is the rest of the name without its
    dashes; the dashes of the rest do not change the slot. *)
Theorem X5_prefix_is_stripped (key rest : string) :
  In key prefixKeys ->
  effectiveCategoryKey (key ++ rest) = key /\
  payloadForEffective (key ++ rest) = JS.removeDashes rest /\
  slotIndexWithinCategory (key ++ rest)
  = slotIndexWithinCategory (key ++ JS.removeDashes rest).
Proof.
  intro Hkey.
  assert (H : forall r, effectiveCategoryKey (key ++ r) = key /\
                        payloadForEffective (key ++ r) = JS.removeDashes r).
  { cbn in Hkey.
    repeat match goal with
           | H : _ \/ _ |- _ => destruct H as [H | H]
           | H : False |- _ => destruct H
           end; subst key; intros [|c r]; split; reflexivity. }
  assert (Hp : forall r, payloadForEffective (key ++ r) = JS.removeDashes r)
    by (intro r; apply H).
  split; [apply H |]. split; [apply Hp |].
  unfold slotIndexWithinCategory.
  rewrite !Hp, removeDashes_idempotent. reflexivity.
Qed.

Lemma X5_prefix_is_stripped_witness :
  In "ZZZ_" prefixKeys /\
  effectiveCategoryKey ("ZZZ_" ++ "A-B") = "ZZZ_" /\
  payloadForEffective ("ZZZ_" ++ "A-B") = JS.removeDashes "A-B" /\
  slotIndexWithinCategory ("ZZZ_" ++ "A-B")
  = slotIndexWithinCategory ("ZZZ_" ++ JS.removeDashes "A-B").
Proof.
  assert (H : In "ZZZ_" prefixKeys) by (cbn; tauto).
  split; [exact H |].
  exact (X5_prefix_is_stripped "ZZZ_" "A-B" H).
Defined.

(** X6.  The payload of a name never holds a dash. *)
Theorem X6_payload_without_dash (h : Host) (name : string) :
  hasDash (payloadUsed (planForName h name)) = false.
Proof.
  unfold planForName; cbn [payloadUsed].
  unfold slotIndexWithinCategory; cbn [payloadUsedOf].
  unfold payloadForEffective.
  repeat match goal with
         | |- context [if ?b then _ else _] => destruct b
         end;
    first [reflexivity | apply removeDashes_hasDash].
Qed.

(** ** The fraction in exact arithmetic *)

Lemma scaleAt_pos (i : nat) : (0 < scaleAt i)%Q.
Proof.
  induction i as [|i IH]; cbn [scaleAt]; [reflexivity |].
  apply Qmult_lt_0_compat; [exact IH | reflexivity].
Qed.

Lemma contribution_times_scale (i : nat) (c : ascii) :
  (contribution i c * scaleAt i == inject_Z (charCode c + 1))%Q.
Proof.
  unfold contribution. rewrite <- scaleAt_power.
  field. intro H. pose proof (scaleAt_pos i) as P. rewrite H in P. discriminate P.
Qed.

Lemma contributionsFrom_scaled (cs : list ascii) : forall i : nat,
  (contributionsFrom i cs * scaleAt i <= 1600 # 39)%Q.
Proof.
  induction cs as [|c r IH]; intro i; cbn [contributionsFrom].
  - rewrite Qmult_0_l. discriminate.
  - assert (E : ((contribution i c + contributionsFrom (S i) r) * scaleAt i
                 == contribution i c * scaleAt i
                    + contributionsFrom (S i) r * scaleAt (S i) * (1 # 40))%Q).
    { cbn [scaleAt]. change (inject_Z BASE) with (40 # 1)%Q. ring. }
    rewrite E, contribution_times_scale.
    assert (B : (1600 # 39 == inject_Z 40 + (1600 # 39) * (1 # 40))%Q) by reflexivity.
    rewrite B. apply Qplus_le_compat.
    + rewrite <- Zle_Qle. pose proof (charCode_range c). lia.
    + apply Qmult_le_compat_r; [apply IH | discriminate].
Qed.

Lemma lexFractionExact_positions (payload : string) :
  (lexFractionExact payload == fractionByPositions payload)%Q.
Proof.
  unfold lexFractionExact, lexFractionIn, fractionByPositions.
  change (ofInt 1) with (scaleAt 0).
  rewrite lexLoop_exact. apply Qplus_0_l.
Qed.

(** X7.  In exact arithmetic the fraction of a payload lies between 0 and
    40/39; it is 0 for the empty payload only, and at least 1/40 for every
    other one. *)
Theorem X7_fraction_range (payload : string) :
  (0 <= lexFractionExact payload <= 40 # 39)%Q /\
  match payload with
  | EmptyString => (lexFractionExact payload == 0)%Q
  | String _ _ => (1 # 40 <= lexFractionExact payload)%Q
  end.
Proof.
  rewrite lexFractionExact_positions. unfold fractionByPositions.
  split; [split |].
  - apply contributionsFrom_nonneg.
  - set (cs := firstn 128 _).
    pose proof (contributionsFrom_scaled cs 1) as H.
    assert (E : (contributionsFrom 1 cs
                 == contributionsFrom 1 cs * scaleAt 1 * (1 # 40))%Q)
      by (cbn [scaleAt]; change (inject_Z BASE) with (40 # 1)%Q;
          change (inject_Z 1) with 1%Q; ring).
    rewrite E.
    assert (B : (40 # 39 == (1600 # 39) * (1 # 40))%Q) by reflexivity.
    rewrite B. apply Qmult_le_compat_r; [exact H | discriminate].
  - destruct payload as [|c r]; [reflexivity |].
    rewrite lexFractionExact_positions. unfold fractionByPositions.
    change (firstn 128 (JS.chars (JS.toUpperCase (String c r))))
      with (JS.upperChar c :: firstn 127 (JS.chars (JS.toUpperCase r))).
    cbn [contributionsFrom].
    assert (E : (contribution 1 (JS.upperChar c)
                 == inject_Z (charCode (JS.upperChar c) + 1) * (1 # 40))%Q).
    { rewrite <- (contribution_times_scale 1).
      cbn [scaleAt]. change (inject_Z BASE) with (40 # 1)%Q.
      change (inject_Z 1) with 1%Q. ring. }
    rewrite E.
    assert (B : (1 # 40 == inject_Z 1 * (1 # 40) + 0)%Q) by reflexivity.
    rewrite B. apply Qplus_le_compat; [| apply contributionsFrom_nonneg].
    apply Qmult_le_compat_r; [| discriminate].
    rewrite <- Zle_Qle. pose proof (charCode_range (JS.upperChar c)). lia.
Qed.

Lemma contributionsFrom_extension (l1 l2 : list ascii) : forall (n i : nat),
  (contributionsFrom i (firstn n l1) <= contributionsFrom i (firstn n (l1 ++ l2)))%Q.
Proof.
  induction l1 as [|c r IH]; intros n i.
  - rewrite firstn_nil. apply contributionsFrom_nonneg.
  - destruct n as [|n]; [apply Qle_refl |].
    cbn [app firstn contributionsFrom].
    apply Qplus_le_compat; [apply Qle_refl | apply IH].
Qed.

Lemma toUpperCase_append (s t : string) :
  JS.toUpperCase (s ++ t) = JS.toUpperCase s ++ JS.toUpperCase t.
Proof.
  induction s as [|c r IH]; cbn [append JS.toUpperCase]; [reflexivity |].
  rewrite IH. reflexivity.
Qed.

Lemma chars_append (s t : string) : JS.chars (s ++ t) = (JS.chars s ++ JS.chars t)%list.
Proof.
  unfold JS.chars.
  induction s as [|c r IH]; cbn [append list_ascii_of_string app]; [reflexivity |].
  rewrite IH. reflexivity.
Qed.

(** X8.  In exact arithmetic, characters added at the end of a payload never
    lower its fraction. *)
Theorem X8_extension_not_lower (payload more : string) :
  (lexFractionExact payload <= lexFractionExact (payload ++ more))%Q.
Proof.
  rewrite !lexFractionExact_positions. unfold fractionByPositions.
  rewrite toUpperCase_append, chars_append.
  apply contributionsFrom_extension.
Qed.

(** ** The fraction reads ranks only, and 128 of them at most *)

Lemma lexLoop_ranks {R : Type} `{Arith R} (n : nat) :
  forall (s1 s2 : string) (total scale : R),
  map charCode (firstn n (JS.chars s1)) = map charCode (firstn n (JS.chars s2)) ->
  lexLoop n s1 total scale = lexLoop n s2 total scale.
Proof.
  induction n as [|n IH]; intros s1 s2 total scale E; [reflexivity |].
  destruct s1 as [|c1 r1], s2 as [|c2 r2]; try discriminate E; [reflexivity |].
  cbn [JS.chars list_ascii_of_string firstn map] in E.
  injection E as Ec Er.
  cbn [lexLoop]. rewrite Ec. apply IH. exact Er.
Qed.

Lemma lexFractionIn_ranks {R : Type} `{Arith R} (p1 p2 : string) :
  ranksOf p1 = ranksOf p2 -> lexFractionIn (R := R) p1 = lexFractionIn (R := R) p2.
Proof. intro E. unfold lexFractionIn. apply lexLoop_ranks. exact E. Qed.

Lemma chars_length (s : string) : List.length (JS.chars s) = String.length s.
Proof.
  unfold JS.chars.
  induction s as [|c r IH]; cbn [list_ascii_of_string List.length String.length];
    [reflexivity | rewrite IH; reflexivity].
Qed.

Lemma toUpperCase_length (s : string) :
  String.length (JS.toUpperCase s) = String.length s.
Proof.
  induction s as [|c r IH]; cbn [JS.toUpperCase String.length];
    [reflexivity | rewrite IH; reflexivity].
Qed.

Lemma ranksOf_cap (payload more : string) :
  (128 <= String.length payload)%nat -> ranksOf (payload ++ more) = ranksOf payload.
Proof.
  intro Hlen. unfold ranksOf.
  rewrite toUpperCase_append, chars_append, firstn_app.
  rewrite chars_length, toUpperCase_length.
  replace (128 - String.length payload)%nat with 0%nat by lia.
  cbn [firstn]. rewrite app_nil_r. reflexivity.
Qed.

(** X9.  The slot of a name is a function of the ranks of the first 128
    characters of its payload: two names whose payloads have the same ranks
    get the same fraction and the same slot.  In particular a character
    outside the charset counts as a period, and a lower-case letter as its
    upper case. *)
Theorem X9_ranks_decide_slot (h : Host) (name1 name2 : string) :
  ranksOf (payloadUsed (planForName h name1))
  = ranksOf (payloadUsed (planForName h name2)) ->
  lexFraction (payloadUsed (planForName h name1))
  = lexFraction (payloadUsed (planForName h name2)) /\
  slot (planForName h name1) = slot (planForName h name2).
Proof.
  unfold planForName; cbn [payloadUsed slot].
  unfold slotIndexWithinCategory; cbn [payloadUsedOf slotOf].
  intro E.
  assert (F : lexFraction (payloadForEffective (normalizeToEffective name1))
              = lexFraction (payloadForEffective (normalizeToEffective name2)))
    by (apply lexFractionIn_ranks; exact E).
  split; [exact F | rewrite F; reflexivity].
Qed.

Lemma X9_ranks_decide_slot_witness :
  ranksOf (payloadUsed (planForName UTC.host "zzz_a~c"))
  = ranksOf (payloadUsed (planForName UTC.host "ZZZ_A.C")) /\
  lexFraction (payloadUsed (planForName UTC.host "zzz_a~c"))
  = lexFraction (payloadUsed (planForName UTC.host "ZZZ_A.C")) /\
  slot (planForName UTC.host "zzz_a~c") = slot (planForName UTC.host "ZZZ_A.C").
Proof.
  assert (E : ranksOf (payloadUsed (planForName UTC.host "zzz_a~c"))
              = ranksOf (payloadUsed (planForName UTC.host "ZZZ_A.C")))
    by reflexivity.
  split; [exact E |].
  exact (X9_ranks_decide_slot UTC.host "zzz_a~c" "ZZZ_A.C" E).
Defined.

(** X10.  The characters of a payload after the 128th do not reach the
    fraction: a payload of 128 characters or more has the fraction of each of
    its extensions, in binary64 and in exact arithmetic. *)
Theorem X10_cap_at_128 (payload more : string) :
  (128 <= String.length payload)%nat ->
  lexFraction (payload ++ more) = lexFraction payload /\
  lexFractionExact (payload ++ more) = lexFractionExact payload.
Proof.
  intro Hlen.
  split; apply lexFractionIn_ranks, ranksOf_cap, Hlen.
Qed.

Lemma X10_cap_at_128_witness :
  let payload :=
    "0123456789ABCDEF0123456789ABCDEF0123456789ABCDEF0123456789ABCDEF0123456789ABCDEF0123456789ABCDEF0123456789ABCDEF0123456789ABCDEF" in
  (128 <= String.length payload)%nat /\
  lexFraction (payload ++ "ZZZ") = lexFraction payload /\
  lexFractionExact (payload ++ "ZZZ") = lexFractionExact payload.
Proof.
  cbv zeta.
  assert (H : (128 <= String.length
    "0123456789ABCDEF0123456789ABCDEF0123456789ABCDEF0123456789ABCDEF0123456789ABCDEF0123456789ABCDEF0123456789ABCDEF0123456789ABCDEF")%nat)
    by (apply Nat.leb_le; reflexivity).
  split; [exact H |].
  exact (X10_cap_at_128 _ "ZZZ" H).
Defined.

(** ** The nudge is a parity *)

Lemma odd_toUint32 (z : Z) : Z.odd (Num.toUint32 z) = Z.odd z.
Proof.
  unfold Num.toUint32. rewrite <- !Z.bit0_odd.
  apply Z.mod_pow2_bits_low. lia.
Qed.

Lemma odd_toInt32 (z : Z) : Z.odd (Num.toInt32 z) = Z.odd z.
Proof.
  unfold Num.toInt32.
  destruct (Num.toUint32 z <? 2 ^ 31).
  - apply odd_toUint32.
  - rewrite Z.odd_sub, odd_toUint32. change (Z.odd (2 ^ 32)) with false.
    apply xorb_false_r.
Qed.

Lemma odd_hash_step (h c : Z) :
  Z.odd (Num.ushr0 (Num.imul (Num.xor h c) 0x01000193)) = xorb (Z.odd h) (Z.odd c).
Proof.
  unfold Num.ushr0, Num.imul, Num.xor.
  rewrite odd_toUint32, odd_toInt32, Z.odd_mul, !odd_toUint32, odd_toInt32.
  change (Z.odd 0x01000193) with true. rewrite andb_true_r.
  rewrite <- !Z.bit0_odd, Z.lxor_spec, !Z.bit0_odd, !odd_toInt32.
  reflexivity.
Qed.

Lemma odd_hashLoop (s : string) : forall h : Z,
  Z.odd (hashLoop s h) = xorb (Z.odd h) (oddUnits s).
Proof.
  induction s as [|c r IH]; intro h; cbn [hashLoop oddUnits].
  - symmetry. apply xorb_false_r.
  - rewrite IH, odd_hash_step. apply xorb_assoc.
Qed.

(** X11.  The nudge of a name is the parity of its code units: it is 0 when
    the name has an odd number of code units of odd value, and 1 otherwise.
    Nothing else of the 32-bit hash reaches the plan. *)
Theorem X11_nudge_is_parity (s : string) :
  stableHash01 s = if oddUnits s then 0 else 1.
Proof.
  unfold stableHash01, Num.and.
  set (h := hashLoop s _).
  change (Num.toInt32 1) with (Z.ones 1).
  rewrite Z.land_ones by lia.
  change (2 ^ 1) with 2. rewrite Zmod_odd, odd_toInt32.
  subst h. rewrite odd_hashLoop.
  change (Z.odd (Num.ushr0 0x811c9dc5)) with true.
  destruct (oddUnits s); reflexivity.
Qed.

(** ** Offsets and time values *)

(** X12.  The offset of a plan lies in the block of its category, both ends
    included: from [index * 86400] to [(index + 1) * 86400].  Its time value
    is the base instant of the host minus 1000 times the offset, so that every
    plan is dated within the 13 days that end at the base instant. *)
Theorem X12_offset_in_block (h : Host) (name : string) :
  exists i z,
    categoryIndex (planForName h name) = Some i /\
    offsetSeconds (planForName h name) = Int z /\
    i * CATEGORY_BLOCK_SECONDS <= z <= (i + 1) * CATEGORY_BLOCK_SECONDS /\
    0 <= z <= 13 * 86400 /\
    epochMillis (planForName h name)
    = Int (Date_local h 2098 11 31 23 59 59 - z * 1000).
Proof.
  destruct (planForName_offset h name) as [i [y [n [Hc [Hi [Hs [Hy [Hn Ho]]]]]]]].
  exists i. eexists. split; [exact Hc |]. split; [exact Ho |].
  unfold CATEGORY_BLOCK_SECONDS, SLOTS_PER_CATEGORY, SECONDS_BETWEEN_ITEMS in *.
  split; [lia |]. split; [lia |].
  destruct (planForName_times h name) as [-> _].
  rewrite Ho. reflexivity.
Qed.

(** ** The responses of the worker *)

(** X13.  A response has one of two shapes.  For a name that is not empty its
    body lists the twelve members of the plan, in the order of the object,
    none left out and none [null]; otherwise it lists [ok] and [error].  The
    three headers are the same in both cases. *)
Theorem X13_response_members (h : Host) (url : URL) :
  let response := snd (handleApi h url) in
  match searchParams_get (searchParams url) "name" with
  | Some (String _ _) =>
      map fst (body response) = planMembers /\
      existsb (fun kv => isNull (snd kv)) (body response) = false
  | _ => map fst (body response) = ["ok"; "error"]
  end /\
  headers response
  = [ ("Content-Type", "application/json; charset=utf-8");
      ("Cache-Control", "no-store");
      ("Access-Control-Allow-Origin", "*") ].
Proof.
  unfold handleApi.
  destruct (searchParams_get (searchParams url) "name") as [[|c v]|];
    (split; [| reflexivity]); try reflexivity.
  cbn [truthy String.eqb negb bind callPlanForName ret snd body app].
  destruct (planForName_offset h (String c v))
    as [i [y [n [Hc [_ [Hs [_ [_ Ho]]]]]]]].
  destruct (planForName_times h (String c v)) as [Ht _].
  unfold toUTCDateFromLocalBaseMinusSeconds in Ht. rewrite Ho in Ht.
  cbn [Num.mul Num.sub Num.add Num.opp] in Ht.
  unfold planObject. rewrite Hc, Hs, Ho, Ht.
  split; reflexivity.
Qed.

Lemma endsWith_self (p : string) : JS.endsWith p p = true.
Proof.
  unfold JS.endsWith.
  rewrite Nat.leb_refl, Nat.sub_diag. cbn [andb JS.slice].
  destruct p; [reflexivity | apply String.eqb_refl].
Qed.

(** X14.  The worker answers a request itself exactly when its path ends with
    [/api] (the test for the path [/api] alone adds nothing), and then with
    status 200; every other request is left to the network. *)
Theorem X14_paths_answered (h : Host) (url : URL) :
  fetchListener h url
  = (if JS.endsWith (pathname url) "/api" then Some (handleApi h url) else None) /\
  match fetchListener h url with
  | Some logged => status (snd logged) = 200
  | None => JS.endsWith (pathname url) "/api" = false
  end.
Proof.
  assert (E : fetchListener h url
              = if JS.endsWith (pathname url) "/api"
                then Some (handleApi h url) else None).
  { unfold fetchListener.
    destruct (String.eqb (pathname url) "/api") eqn:P; [| reflexivity].
    apply String.eqb_eq in P. rewrite P, endsWith_self. reflexivity. }
  split; [exact E |]. rewrite E.
  destruct (JS.endsWith (pathname url) "/api"); [| reflexivity].
  unfold handleApi.
  destruct (searchParams_get (searchParams url) "name") as [[|c v]|]; reflexivity.
Qed.

(** ** Order of the offsets *)

(** X15.  Offsets follow the order of the pairs (category index, slot): a
    plan with the smaller index, or with the same index and the smaller slot,
    has an offset that is not larger.  The two offsets are equal only at a
    step of one: from the last slot of a category to slot 0 of the next, or
    from a slot to the next slot of the same category. *)
Theorem X15_order_by_index_then_slot (h : Host) (name1 name2 : string)
  (i1 i2 y1 y2 z1 z2 : Z) :
  categoryIndex (planForName h name1) = Some i1 ->
  categoryIndex (planForName h name2) = Some i2 ->
  slot (planForName h name1) = Int y1 ->
  slot (planForName h name2) = Int y2 ->
  offsetSeconds (planForName h name1) = Int z1 ->
  offsetSeconds (planForName h name2) = Int z2 ->
  i1 < i2 \/ (i1 = i2 /\ y1 < y2) ->
  z1 <= z2 /\
  (z1 = z2 ->
   (i2 = i1 + 1 /\ y1 = SLOTS_PER_CATEGORY - 1 /\ y2 = 0) \/
   (i2 = i1 /\ y2 = y1 + 1)).
Proof.
  intros C1 C2 S1 S2 O1 O2 Hlt.
  destruct (planForName_offset h name1) as [j1 [x1 [n1 [Hc1 [_ [Hs1 [Hx1 [Hn1 Ho1]]]]]]]].
  destruct (planForName_offset h name2) as [j2 [x2 [n2 [Hc2 [_ [Hs2 [Hx2 [Hn2 Ho2]]]]]]]].
  rewrite C1 in Hc1. rewrite C2 in Hc2. rewrite S1 in Hs1. rewrite S2 in Hs2.
  rewrite O1 in Ho1. rewrite O2 in Ho2.
  injection Hc1 as <-. injection Hc2 as <-.
  injection Hs1 as <-. injection Hs2 as <-.
  injection Ho1 as ->. injection Ho2 as ->.
  unfold CATEGORY_BLOCK_SECONDS, SLOTS_PER_CATEGORY, SECONDS_BETWEEN_ITEMS in *.
  lia.
Qed.

Lemma X15_order_by_index_then_slot_witness :
  categoryIndex (planForName UTC.host "EMU_MAME") = Some 3 /\
  categoryIndex (planForName UTC.host "BOOT") = Some 10 /\
  slot (planForName UTC.host "EMU_MAME") = Int 52520 /\
  slot (planForName UTC.host "BOOT") = Int 29520 /\
  offsetSeconds (planForName UTC.host "EMU_MAME") = Int 311721 /\
  offsetSeconds (planForName UTC.host "BOOT") = Int 893521 /\
  (3 < 10 \/ (3 = 10 /\ 52520 < 29520)) /\
  311721 <= 893521.
Proof.
  assert (C1 : categoryIndex (planForName UTC.host "EMU_MAME") = Some 3)
    by (vm_compute; reflexivity).
  assert (C2 : categoryIndex (planForName UTC.host "BOOT") = Some 10)
    by (vm_compute; reflexivity).
  assert (S1 : slot (planForName UTC.host "EMU_MAME") = Int 52520)
    by (vm_compute; reflexivity).
  assert (S2 : slot (planForName UTC.host "BOOT") = Int 29520)
    by (vm_compute; reflexivity).
  assert (O1 : offsetSeconds (planForName UTC.host "EMU_MAME") = Int 311721)
    by (vm_compute; reflexivity).
  assert (O2 : offsetSeconds (planForName UTC.host "BOOT") = Int 893521)
    by (vm_compute; reflexivity).
  assert (L : 3 < 10 \/ (3 = 10 /\ 52520 < 29520)) by (left; lia).
  repeat (split; [assumption |]).
  exact (proj1 (X15_order_by_index_then_slot UTC.host "EMU_MAME" "BOOT"
                  3 10 52520 29520 311721 893521 C1 C2 S1 S2 O1 O2 L)).
Defined.

(** ** Edge cases of the name *)

(** X16.  A name made of white space only is not empty for the handler, which
    calls the engine on it; the engine treats it as the empty name: category
    [DEFAULT], empty payload, slot 0, and the plan of the empty name in every
    field but [input]. *)
Theorem X16_blank_name (h : Host) (name : string) :
  JS.trim name = "" ->
  agreeBesidesInput (planForName h name) (planForName h "") /\
  categoryKey (planForName h name) = "DEFAULT" /\
  payloadUsed (planForName h name) = "" /\
  slot (planForName h name) = Int 0 /\
  fst (handleApi h {| pathname := "/api"; searchParams := [("name", name)] |})
  = (if truthy name then [name] else []).
Proof.
  intro Ht.
  assert (E : normalizeToEffective name = normalizeToEffective "")
    by (unfold normalizeToEffective; rewrite Ht; reflexivity).
  pose proof (plans_of_one_effective_name h name "" E) as A.
  split; [exact A |].
  destruct A as [_ [_ [_ [Hk [_ [Hs [_ [Hp _]]]]]]]].
  split; [rewrite Hk; reflexivity |].
  split; [rewrite Hp; reflexivity |].
  split; [rewrite Hs; reflexivity |].
  unfold handleApi. cbn [searchParams searchParams_get String.eqb Ascii.eqb Bool.eqb].
  destruct name as [|c r]; reflexivity.
Qed.

Lemma X16_blank_name_witness :
  JS.trim "   " = "" /\
  agreeBesidesInput (planForName UTC.host "   ") (planForName UTC.host "") /\
  categoryKey (planForName UTC.host "   ") = "DEFAULT" /\
  payloadUsed (planForName UTC.host "   ") = "" /\
  slot (planForName UTC.host "   ") = Int 0 /\
  fst (handleApi UTC.host {| pathname := "/api"; searchParams := [("name", "   ")] |})
  = (if truthy "   " then ["   "] else []).
Proof.
  assert (H : JS.trim "   " = "") by reflexivity.
  split; [exact H |].
  exact (X16_blank_name UTC.host "   " H).
Defined.

(** ** The index table *)

(** X17.  The index table numbers the category order table: every entry of
    the order table has its position as index, and whenever the index table
    gives a number for a key, from 0 to 12, that key is the entry at that
    position. *)
Theorem X17_index_inverts_order (k : string) :
  match CATEGORY_INDEX k with
  | Some i => 0 <= i < 13 /\ nth_error CATEGORY_ORDER (Z.to_nat i) = Some k
  | None => True
  end /\
  forall i : nat,
    match nth_error CATEGORY_ORDER i with
    | Some key => CATEGORY_INDEX key = Some (Z.of_nat i)
    | None => (13 <= i)%nat
    end.
Proof.
  split.
  - unfold CATEGORY_INDEX.
    cbn [JS.withIndex JS.withIndexFrom CATEGORY_ORDER JS.lookupLast Z.add Pos.add
         Pos.succ].
    repeat match goal with
           | |- context [String.eqb k ?x] =>
               let E := fresh "E" in
               destruct (String.eqb k x) eqn:E;
               [apply String.eqb_eq in E; subst k; vm_compute; repeat split;
                first [reflexivity | intro; discriminate] |]
           end.
    exact I.
  - intro i.
    do 13 (destruct i as [|i]; [reflexivity |]).
    unfold CATEGORY_ORDER. cbn [nth_error].
    destruct i; cbn [nth_error]; lia.
Qed.
